(** * Sugarglider: fixed-point trigonometry kernel

    A shallow embedding of the C functions [fixed_sin_q8_8],
    [fixed_cos_q8_8], [fixed_atan2_q8_8], [isqrt16] and
    [pythagoras_q88_16bit], and the properties of the numeric kernel
    established (or refuted) on that embedding.

    C integers are modelled as [Z].  The target has a 32-bit [int];
    every operand narrower than [int] is promoted to [int] before
    arithmetic, and a value stored into a narrower object is reduced
    modulo the width of that object (the behaviour GCC and Clang
    document for narrowing conversions and for shifts of signed
    values).  Sums, differences and negations of promoted 8- and
    16-bit operands stay far inside [int] and are taken in [Z] as they
    are.  Genuine run-time faults of the arithmetic (a zero divisor, a
    signed product or quotient that leaves [int]) are results of type
    [outcome]. *)

From Stdlib Require Import ZArith List Bool Lia Reals Lra Sorted.
From Equations Require Import Equations.
Import ListNotations.

Local Open Scope Z_scope.

(** ** Machine integers *)

Module CInt.

(** Unsigned [w]-bit reduction. *)
Definition wrap_unsigned (w z : Z) : Z := z mod 2 ^ w.

(** Two's-complement [w]-bit reduction. *)
Definition wrap_signed (w z : Z) : Z :=
  (z + 2 ^ (w - 1)) mod 2 ^ w - 2 ^ (w - 1).

Definition to_uint8 (z : Z) : Z := wrap_unsigned 8 z.
Definition to_uint16 (z : Z) : Z := wrap_unsigned 16 z.
Definition to_uint32 (z : Z) : Z := wrap_unsigned 32 z.
Definition to_int16 (z : Z) : Z := wrap_signed 16 z.
Definition to_int (z : Z) : Z := wrap_signed 32 z.

Definition is_uint8 (z : Z) : Prop := 0 <= z <= 255.
Definition is_uint16 (z : Z) : Prop := 0 <= z <= 65535.
Definition is_int16 (z : Z) : Prop := -32768 <= z <= 32767.

Definition INT_MIN : Z := - 2 ^ 31.
Definition INT_MAX : Z := 2 ^ 31 - 1.

(** What evaluating an expression can end in. *)
Inductive outcome (A : Type) : Type :=
| Ok (a : A)
| DivByZero
| SignedOverflow.
Arguments Ok {A} a.
Arguments DivByZero {A}.
Arguments SignedOverflow {A}.

Definition bind {A B : Type} (m : outcome A) (k : A -> outcome B) : outcome B :=
  match m with
  | Ok a => k a
  | DivByZero => DivByZero
  | SignedOverflow => SignedOverflow
  end.

(** [a * b] on two [int]s: the product must stay inside [int]. *)
Definition int_mul (a b : Z) : outcome Z :=
  let p := a * b in
  if (INT_MIN <=? p) && (p <=? INT_MAX) then Ok p else SignedOverflow.

(** [a / b] on two [int]s: truncation towards zero, no zero divisor,
    and [INT_MIN / -1] leaves [int]. *)
Definition int_div (a b : Z) : outcome Z :=
  if b =? 0 then DivByZero
  else if (a =? INT_MIN) && (b =? -1) then SignedOverflow
  else Ok (Z.quot a b).

(** [a << n] on an [int], on the two's-complement representation. *)
Definition int_shl (a n : Z) : Z := to_int (Z.shiftl a n).

(** [a >> n] on an [int]: arithmetic shift. *)
Definition int_shr (a n : Z) : Z := Z.shiftr a n.

End CInt.

Import CInt.

Notation "x <- m ;; k" := (bind m (fun x => k))
  (at level 61, m at next level, right associativity).

(** ** The sine table and the sine/cosine evaluator *)

Definition TABLE_SIZE : Z := 64.

Definition sine_table : list Z :=
  [ 0; 6; 13; 19; 25; 31; 38; 44;
    50; 56; 62; 69; 75; 81; 87; 93;
    99; 105; 111; 117; 122; 128; 134; 140;
    145; 151; 157; 162; 168; 173; 179; 184;
    189; 195; 200; 205; 210; 216; 221; 226;
    231; 236; 240; 245; 250; 255; 260; 264;
    269; 273; 278; 282; 286; 290; 294; 298;
    302; 306; 310; 313; 317; 320; 324; 327 ].

(** [sine_table[i]]; every read in [fixed_sin_q8_8] is inside the
    table (lemma [sine_index_in_table] below). *)
Definition sine_table_at (i : Z) : Z := nth (Z.to_nat i) sine_table 0.

Definition quadrant_of (angle : Z) : Z := to_uint8 (int_shr angle 6).
Definition index_of (angle : Z) : Z := to_uint8 (Z.land angle 63).

(** [int16_t fixed_sin_q8_8(uint8_t angle)] *)
Definition fixed_sin_q8_8 (angle : Z) : Z :=
  let quadrant := quadrant_of angle in
  let index := index_of angle in
  match quadrant with
  | 0 => to_int16 (sine_table_at index)
  | 1 => to_int16 (sine_table_at (TABLE_SIZE - 1 - index))
  | 2 => to_int16 (- sine_table_at index)
  | 3 => to_int16 (- sine_table_at (TABLE_SIZE - 1 - index))
  | _ => 0
  end.

(** [int16_t fixed_cos_q8_8(uint8_t angle)]: the argument [angle + 64]
    is an [int] and is converted to [uint8_t] by the call. *)
Definition fixed_cos_q8_8 (angle : Z) : Z :=
  fixed_sin_q8_8 (to_uint8 (angle + 64)).

(** ** The arctangent estimator *)

(** [uint8_t fixed_atan2_q8_8(int16_t y, int16_t x)].  [abs] works on
    [int]; its result is stored into an [int16_t]. *)
Definition fixed_atan2_q8_8 (y x : Z) : outcome Z :=
  if (x =? 0) && (y =? 0) then Ok 0
  else
    let abs_y := to_int16 (Z.abs y) in
    let abs_x := to_int16 (Z.abs x) in
    zi <- (if abs_y >? abs_x
           then q <- int_div (int_shl abs_x 8) abs_y ;; Ok (to_int16 q, true)
           else q <- int_div (int_shl abs_y 8) abs_x ;; Ok (to_int16 q, false)) ;;
    let z_q8_8 := fst zi in
    let invert := snd zi in
    let base_angle := to_uint8 (int_shr z_q8_8 2) in
    let base_angle :=
      if invert then to_uint8 (64 - base_angle) else base_angle in
    if (x >=? 0) && (y >=? 0) then Ok base_angle
    else if (x <? 0) && (y >=? 0) then Ok (to_uint8 (128 - base_angle))
    else if (x <? 0) && (y <? 0) then Ok (to_uint8 (128 + base_angle))
    else Ok (to_uint8 (256 - base_angle)).

(** ** Integer square root *)

(** The body of [while (bit > 0) { ... bit >>= 1; }]; [temp * temp] is
    a product of two promoted [int]s. *)
Equations? isqrt16_loop (x res bit : Z) : outcome Z by wf (Z.to_nat bit) lt :=
  isqrt16_loop x res bit with Z_gt_dec bit 0 => {
    | left _ =>
        let temp := to_uint16 (Z.lor res bit) in
        sq <- int_mul temp temp ;;
        isqrt16_loop x (if sq <=? x then temp else res)
                     (to_uint16 (int_shr bit 1))
    | right _ => Ok res }.
Proof.
  unfold to_uint16, wrap_unsigned, int_shr.
  rewrite Z.shiftr_div_pow2 by lia.
  change (2 ^ 1) with 2. change (2 ^ 16) with 65536.
  apply Z2Nat.inj_lt; try lia.
  - apply Z.mod_pos_bound; lia.
  - pose proof (Z.mod_le (bit / 2) 65536).
    assert (0 <= bit / 2) by (apply Z.div_pos; lia).
    assert (bit / 2 < bit) by (apply Z.div_lt; lia).
    lia.
Qed.

(** [uint16_t isqrt16(uint16_t x)] *)
Definition isqrt16 (x : Z) : outcome Z :=
  isqrt16_loop x 0 (to_uint16 (int_shl 1 14)).

(** ** Planar magnitude *)

(** [(uint32_t)a * a]: the product is taken in [uint32_t]. *)
Definition uint32_mul (a b : Z) : Z := to_uint32 (to_uint32 a * to_uint32 b).

(** [int16_t pythagoras_q88_16bit(int16_t a_q88, int16_t b_q88)] *)
Definition pythagoras_q88_16bit (a_q88 b_q88 : Z) : outcome Z :=
  let a := to_uint16 (if a_q88 <? 0 then - a_q88 else a_q88) in
  let b := to_uint16 (if b_q88 <? 0 then - b_q88 else b_q88) in
  let a2 := to_uint16 (Z.shiftr (uint32_mul a a) 8) in
  let b2 := to_uint16 (Z.shiftr (uint32_mul b b) 8) in
  let sum := to_uint16 (a2 + b2) in
  sqrt_result <- isqrt16 sum ;;
  Ok (to_int16 (int_shl sqrt_result 4)).

(** ** Specification-level notions *)

(** [e] is an integer nearest to the real [r]: what "round" means. *)
Definition nearest_integer (r : R) (e : Z) : Prop :=
  (Rabs (IZR e - r) <= 1 / 2)%R.

(** [sin(i * 90deg / 64) * 256], the value the table's header comment
    promises for entry [i] before rounding. *)
Definition scaled_sine (i : Z) : R :=
  (sin (IZR i * (PI / 2) / 64) * 256)%R.

(** [sin^2 + cos^2 - 256^2] on the fixed-point evaluators. *)
Definition unit_circle_defect (a : Z) : Z :=
  fixed_sin_q8_8 a ^ 2 + fixed_cos_q8_8 a ^ 2 - 65536.

(** The half-open 64-step range of the quadrant that holds [(x, y)]. *)
Definition in_quadrant_half_open (x y r : Z) : Prop :=
  (0 < x /\ 0 < y -> 0 <= r < 64) /\
  (x < 0 /\ 0 < y -> 64 <= r < 128) /\
  (x < 0 /\ y < 0 -> 128 <= r < 192) /\
  (0 < x /\ y < 0 -> 192 <= r < 256).

(** The closed 64-step range of the quadrant, read modulo 256: the
    upper end of the fourth quadrant is the angle 0. *)
Definition in_quadrant_closed (x y r : Z) : Prop :=
  (0 < x /\ 0 < y -> 0 <= r <= 64) /\
  (x < 0 /\ 0 < y -> 64 <= r <= 128) /\
  (x < 0 /\ y < 0 -> 128 <= r <= 192) /\
  (0 < x /\ y < 0 -> 192 <= r <= 255 \/ r = 0).

(** All 8-bit angles, for exhaustive checks. *)
Definition all_angles : list Z := map Z.of_nat (seq 0 256).

(** ** Stages of the computations, named for the proofs *)

(** The value of [bit] in [isqrt16] when [k] turns of the loop remain. *)
Definition bit_at (k : nat) : Z := 2 ^ Z.of_nat k / 2.

(** First stage of [fixed_atan2_q8_8]: the ratio [z_q8_8] of the
    smaller to the larger of [abs_y], [abs_x], with the [invert] flag. *)
Definition atan2_ratio (abs_y abs_x : Z) : outcome (Z * bool) :=
  if abs_y >? abs_x
  then q <- int_div (int_shl abs_x 8) abs_y ;; Ok (to_int16 q, true)
  else q <- int_div (int_shl abs_y 8) abs_x ;; Ok (to_int16 q, false).

(** Second stage: [base_angle] from the ratio and the flag. *)
Definition atan2_base_angle (zi : Z * bool) : Z :=
  let base_angle := to_uint8 (int_shr (fst zi) 2) in
  if snd zi then to_uint8 (64 - base_angle) else base_angle.

(** Last stage: the quadrant correction by the signs of [x] and [y]. *)
Definition atan2_quadrant (y x base_angle : Z) : Z :=
  if (x >=? 0) && (y >=? 0) then base_angle
  else if (x <? 0) && (y >=? 0) then to_uint8 (128 - base_angle)
  else if (x <? 0) && (y <? 0) then to_uint8 (128 + base_angle)
  else to_uint8 (256 - base_angle).

(** The base angle as a function of the two magnitudes, free of
    conversions: a quarter of the Q8.8 ratio of the smaller to the
    larger, reflected in 64 when [abs_y] is the larger. *)
Definition octant_angle (abs_y abs_x : Z) : Z :=
  if abs_y >? abs_x then 64 - abs_x * 256 / abs_y / 4
  else abs_y * 256 / abs_x / 4.

(** ** Facts about the machine-integer model *)

Lemma to_uint8_small z : 0 <= z < 256 -> to_uint8 z = z.
Proof. intros H. apply Z.mod_small. exact H. Qed.

Lemma to_uint16_small z : 0 <= z < 65536 -> to_uint16 z = z.
Proof. intros H. apply Z.mod_small. exact H. Qed.

Lemma to_uint16_range z : 0 <= to_uint16 z < 65536.
Proof. apply Z.mod_pos_bound. reflexivity. Qed.

Lemma to_int16_small z : -32768 <= z < 32768 -> to_int16 z = z.
Proof.
  intros H. unfold to_int16, wrap_signed.
  change (2 ^ (16 - 1)) with 32768. change (2 ^ 16) with 65536.
  rewrite Z.mod_small; lia.
Qed.

Lemma to_int_small z : -2147483648 <= z < 2147483648 -> to_int z = z.
Proof.
  intros H. unfold to_int, wrap_signed.
  change (2 ^ (32 - 1)) with 2147483648. change (2 ^ 32) with 4294967296.
  rewrite Z.mod_small; lia.
Qed.

Lemma int_shl_small a n :
  0 <= n -> -2147483648 <= a * 2 ^ n < 2147483648 -> int_shl a n = a * 2 ^ n.
Proof.
  intros Hn H. unfold int_shl. rewrite Z.shiftl_mul_pow2 by exact Hn.
  apply to_int_small. exact H.
Qed.

Lemma int_shr_div a n : 0 <= n -> int_shr a n = a / 2 ^ n.
Proof. intros Hn. apply Z.shiftr_div_pow2. exact Hn. Qed.

Lemma int_mul_small a b :
  -2147483648 <= a * b < 2147483648 -> int_mul a b = Ok (a * b).
Proof.
  intros H. unfold int_mul, INT_MIN, INT_MAX.
  change (- 2 ^ 31) with (-2147483648). change (2 ^ 31 - 1) with 2147483647.
  destruct (Z.leb_spec (-2147483648) (a * b)); [|lia].
  destruct (Z.leb_spec (a * b) 2147483647); [reflexivity|lia].
Qed.

Lemma int_div_nonzero a b :
  b <> 0 -> -2147483648 < a -> int_div a b = Ok (Z.quot a b).
Proof.
  intros Hb Ha. unfold int_div, INT_MIN.
  change (- 2 ^ 31) with (-2147483648).
  destruct (Z.eqb_spec b 0); [contradiction|].
  destruct (Z.eqb_spec a (-2147483648)); [lia|reflexivity].
Qed.

(** A predicate checked on the 256 angles holds of every angle. *)
Lemma all_angles_complete (P : Z -> bool) :
  forallb P all_angles = true -> forall a, is_uint8 a -> P a = true.
Proof.
  intros H a [Hlo Hhi]. rewrite forallb_forall in H. apply H.
  unfold all_angles. apply in_map_iff. exists (Z.to_nat a). split.
  - apply Z2Nat.id. exact Hlo.
  - apply in_seq. lia.
Qed.

(** ** Sine and cosine *)

Lemma quadrant_index_of a :
  is_uint8 a ->
  quadrant_of a = a / 64 /\ index_of a = a mod 64 /\ 0 <= a / 64 <= 3.
Proof.
  intros [Hlo Hhi]. unfold quadrant_of, index_of.
  rewrite int_shr_div by lia. change (2 ^ 6) with 64.
  change 63 with (Z.ones 6). rewrite Z.land_ones by lia. change (2 ^ 6) with 64.
  assert (Hq : 0 <= a / 64 <= 3) by (Z.div_mod_to_equations; lia).
  assert (Hi : 0 <= a mod 64 < 64) by (apply Z.mod_pos_bound; lia).
  rewrite !to_uint8_small by lia. tauto.
Qed.

(** Every table read of [fixed_sin_q8_8] is inside the 64-entry table. *)
Lemma sine_index_in_table a :
  is_uint8 a ->
  0 <= index_of a < Z.of_nat (length sine_table) /\
  0 <= TABLE_SIZE - 1 - index_of a < Z.of_nat (length sine_table).
Proof.
  intros Ha. destruct (quadrant_index_of a Ha) as (_ & Hi & _).
  rewrite Hi. unfold TABLE_SIZE. change (Z.of_nat (length sine_table)) with 64.
  pose proof (Z.mod_pos_bound a 64). lia.
Qed.

(** C1: the sine evaluator at the anchor angles: [fixed_sin_q8_8 0] is
    0, but [fixed_sin_q8_8 64] is 327 and [fixed_sin_q8_8 192] is -327
    (the last table entry), not 256 and -256. *)
Theorem fixed_sin_anchor_values :
  fixed_sin_q8_8 0 = 0 /\
  fixed_sin_q8_8 64 = 327 /\ fixed_sin_q8_8 64 <> 256 /\
  fixed_sin_q8_8 192 = -327 /\ fixed_sin_q8_8 192 <> -256.
Proof. repeat split; try reflexivity; vm_compute; discriminate. Qed.

(** C2: the last table entry, 327, is not the rounded value of
    [sin(63 * 90deg / 64) * 256]: a sine scaled by 256 never exceeds
    256. *)
Theorem sine_table_last_entry_not_rounded :
  sine_table_at 63 = 327 /\ ~ nearest_integer (scaled_sine 63) (sine_table_at 63).
Proof.
  split; [reflexivity|].
  change (sine_table_at 63) with 327.
  unfold nearest_integer, scaled_sine. intros H.
  pose proof (SIN_bound (IZR 63 * (PI / 2) / 64)) as [_ Hs].
  unfold Rabs in H. destruct (Rcase_abs (327 - sin (63 * (PI / 2) / 64) * 256)); lra.
Qed.

(** C5: cosine is sine a quarter turn ahead, the addition wrapping
    modulo 256: below 192 the argument is [a + 64], from 192 on it is
    [a - 192]. *)
Theorem fixed_cos_is_shifted_sin a :
  is_uint8 a ->
  fixed_cos_q8_8 a = fixed_sin_q8_8 ((a + 64) mod 256) /\
  (a < 192 -> fixed_cos_q8_8 a = fixed_sin_q8_8 (a + 64)) /\
  (192 <= a -> fixed_cos_q8_8 a = fixed_sin_q8_8 (a - 192)).
Proof.
  intros [Hlo Hhi]. unfold fixed_cos_q8_8, to_uint8, wrap_unsigned.
  change (2 ^ 8) with 256. split; [reflexivity|]. split; intros H.
  - rewrite Z.mod_small by lia. reflexivity.
  - replace ((a + 64) mod 256) with (a - 192); [reflexivity|].
    apply Z.mod_unique with (q := 1); lia.
Qed.

Lemma fixed_cos_is_shifted_sin_witness :
  fixed_cos_q8_8 200 = fixed_sin_q8_8 ((200 + 64) mod 256) /\
  (200 < 192 -> fixed_cos_q8_8 200 = fixed_sin_q8_8 (200 + 64)) /\
  (192 <= 200 -> fixed_cos_q8_8 200 = fixed_sin_q8_8 (200 - 192)).
Proof. apply (fixed_cos_is_shifted_sin 200). unfold is_uint8. lia. Defined.

(** The quadrant and index of the mirrored angle [127 - a]: the
    quadrant's low bit flips and the index is reflected in 63. *)
Lemma mirror_quadrant_index a :
  is_uint8 a ->
  let m := (127 - a) mod 256 in
  is_uint8 m /\ m mod 64 = 63 - a mod 64 /\
  (a / 64 = 0 -> m / 64 = 1) /\ (a / 64 = 1 -> m / 64 = 0) /\
  (a / 64 = 2 -> m / 64 = 3) /\ (a / 64 = 3 -> m / 64 = 2).
Proof.
  intros [Hlo Hhi] m. subst m. unfold is_uint8.
  destruct (Z_le_gt_dec a 127) as [Hs | Hs].
  - rewrite (Z.mod_small (127 - a)) by lia.
    split; [lia|]. repeat split; intros; Z.div_mod_to_equations; lia.
  - replace ((127 - a) mod 256) with (383 - a)
      by (apply Z.mod_unique with (q := -1); lia).
    split; [lia|]. repeat split; intros; Z.div_mod_to_equations; lia.
Qed.

(** C9: the folded sine is mirror-symmetric about the quarter turn:
    angle [a] and angle [(127 - a) mod 256] give the same value. *)
Theorem fixed_sin_mirror a :
  is_uint8 a -> fixed_sin_q8_8 a = fixed_sin_q8_8 ((127 - a) mod 256).
Proof.
  intros Ha.
  destruct (mirror_quadrant_index a Ha) as (Hm & Hi & H0 & H1 & H2 & H3).
  destruct (quadrant_index_of a Ha) as (Qa & Ia & Ra).
  destruct (quadrant_index_of _ Hm) as (Qm & Im & _).
  unfold fixed_sin_q8_8. rewrite Qa, Ia, Qm, Im, Hi. unfold TABLE_SIZE.
  replace (64 - 1 - (63 - a mod 64)) with (a mod 64) by lia.
  replace (64 - 1 - a mod 64) with (63 - a mod 64) by lia.
  assert (Hq : a / 64 = 0 \/ a / 64 = 1 \/ a / 64 = 2 \/ a / 64 = 3) by lia.
  destruct Hq as [Hq | [Hq | [Hq | Hq]]]; rewrite Hq.
  - rewrite (H0 Hq). reflexivity.
  - rewrite (H1 Hq). reflexivity.
  - rewrite (H2 Hq). reflexivity.
  - rewrite (H3 Hq). reflexivity.
Qed.

Lemma fixed_sin_mirror_witness :
  fixed_sin_q8_8 200 = fixed_sin_q8_8 ((127 - 200) mod 256).
Proof. apply (fixed_sin_mirror 200). unfold is_uint8. lia. Defined.

(** C7: on the table as it is, [sin^2 + cos^2] misses [256^2] at every
    angle by at least 4041 and by as much as 41393 (at angle 0, where
    the sum is 106929): no bound of a few units holds. *)
Theorem unit_circle_defect_bounds a :
  is_uint8 a ->
  4041 <= unit_circle_defect a <= 41393 /\
  unit_circle_defect 0 = 41393 /\ unit_circle_defect 31 = 4041 /\
  fixed_sin_q8_8 0 ^ 2 + fixed_cos_q8_8 0 ^ 2 = 106929.
Proof.
  intros Ha.
  assert (Hall : forallb (fun a => (4041 <=? unit_circle_defect a) &&
                                   (unit_circle_defect a <=? 41393))
                         all_angles = true) by (vm_compute; reflexivity).
  pose proof (all_angles_complete _ Hall a Ha) as H. cbv beta in H.
  apply andb_true_iff in H. destruct H as [H1 H2].
  apply Z.leb_le in H1. apply Z.leb_le in H2.
  repeat split; try assumption; vm_compute; reflexivity.
Qed.

Lemma unit_circle_defect_bounds_witness :
  4041 <= unit_circle_defect 0 <= 41393 /\
  unit_circle_defect 0 = 41393 /\ unit_circle_defect 31 = 4041 /\
  fixed_sin_q8_8 0 ^ 2 + fixed_cos_q8_8 0 ^ 2 = 106929.
Proof. apply (unit_circle_defect_bounds 0). unfold is_uint8. lia. Defined.

(** ** Integer square root *)

(** One turn of the [while] loop, as an equation on the loop function. *)
Lemma isqrt16_loop_step x res bit :
  isqrt16_loop x res bit =
  if bit >? 0 then
    let temp := to_uint16 (Z.lor res bit) in
    sq <- int_mul temp temp ;;
    isqrt16_loop x (if sq <=? x then temp else res) (to_uint16 (int_shr bit 1))
  else Ok res.
Proof.
  rewrite isqrt16_loop_equation_1.
  destruct (Z_gt_dec bit 0) as [H | H]; destruct (Z.gtb_spec bit 0); try lia.
  - apply isqrt16_loop_clause_1_equation_1.
  - reflexivity.
Qed.

Lemma bit_at_succ k : bit_at (S k) = 2 ^ Z.of_nat k.
Proof.
  unfold bit_at. rewrite Nat2Z.inj_succ, Z.pow_succ_r by lia.
  rewrite Z.mul_comm. apply Z.div_mul. lia.
Qed.

(** Setting a bit below an aligned accumulator adds it. *)
Lemma lor_aligned q k :
  0 <= k -> Z.lor (q * 2 ^ (k + 1)) (2 ^ k) = q * 2 ^ (k + 1) + 2 ^ k.
Proof.
  intros Hk.
  assert (H0 : Z.land (q * 2 ^ (k + 1)) (2 ^ k) = 0).
  { apply Z.bits_inj'. intros n Hn.
    rewrite Z.land_spec, Z.bits_0, Z.pow2_bits_eqb by exact Hk.
    destruct (Z.eqb_spec k n) as [-> | Hne].
    - rewrite Z.mul_pow2_bits_low by lia. reflexivity.
    - apply andb_false_r. }
  pose proof (Z.add_lor_land (q * 2 ^ (k + 1)) (2 ^ k)). lia.
Qed.

(** Loop invariant: with [k] turns left the accumulator is a multiple
    of [2^k], its square is at most [x], and raising it by [2^k]
    overshoots.  The loop then ends in the floor of the square root,
    and no product [temp * temp] leaves [int]. *)
Lemma isqrt16_loop_invariant (k : nat) :
  forall x res q,
    0 <= q -> res = q * 2 ^ Z.of_nat k ->
    res + 2 ^ Z.of_nat k <= 32768 ->
    res * res <= x < (res + 2 ^ Z.of_nat k) * (res + 2 ^ Z.of_nat k) ->
    exists r, isqrt16_loop x res (bit_at k) = Ok r /\
              0 <= r /\ r * r <= x < (r + 1) * (r + 1).
Proof.
  induction k as [| k IH]; intros x res q Hq Hres Hmax Hsq.
  - rewrite isqrt16_loop_step. change (bit_at 0) with 0. cbn [Z.gtb Z.compare].
    exists res. change (2 ^ Z.of_nat 0) with 1 in *. split; [reflexivity|]. lia.
  - rewrite isqrt16_loop_step, bit_at_succ.
    rewrite Nat2Z.inj_succ, Z.pow_succ_r in * by lia.
    set (B := 2 ^ Z.of_nat k) in *.
    assert (HB : 0 < B) by (apply Z.pow_pos_nonneg; lia).
    destruct (Z.gtb_spec B 0) as [_ | ?]; [|lia]. cbv zeta.
    assert (Hlor : Z.lor res B = res + B).
    { subst res B.
      replace (2 * 2 ^ Z.of_nat k) with (2 ^ (Z.of_nat k + 1))
        by (rewrite Z.add_1_r, Z.pow_succ_r by lia; reflexivity).
      apply lor_aligned. lia. }
    assert (Hnext : to_uint16 (int_shr B 1) = bit_at k).
    { rewrite int_shr_div by lia. change (2 ^ 1) with 2.
      apply to_uint16_small. fold B. unfold bit_at.
      split; [apply Z.div_pos; lia|].
      apply Z.div_lt_upper_bound; lia. }
    rewrite Hlor, Hnext, to_uint16_small by nia.
    rewrite int_mul_small by nia. cbn [bind].
    destruct (Z.leb_spec ((res + B) * (res + B)) x) as [Hle | Hgt].
    + apply (IH x (res + B) (2 * q + 1)); fold B; nia.
    + apply (IH x res (2 * q)); fold B; nia.
Qed.

(** [isqrt16] returns a root [r] with [r^2 <= x < (r+1)^2]. *)
Lemma isqrt16_returns_root x :
  is_uint16 x ->
  exists r, isqrt16 x = Ok r /\ 0 <= r /\ r * r <= x < (r + 1) * (r + 1).
Proof.
  intros [Hlo Hhi]. unfold isqrt16.
  change (to_uint16 (int_shl 1 14)) with (bit_at 15).
  apply (isqrt16_loop_invariant 15 x 0 0);
    change (2 ^ Z.of_nat 15) with 32768; lia.
Qed.

(** C6: on every unsigned 16-bit [x], [isqrt16] returns the floor of
    the square root: [r^2 <= x < (r+1)^2] (so [r] is [Z.sqrt x]), with
    [isqrt16 0 = 0] and [isqrt16 65535 = 255]; the result is a value,
    so no squaring in the loop overflows. *)
Theorem isqrt16_floor_sqrt x :
  is_uint16 x ->
  exists r, isqrt16 x = Ok r /\
            r * r <= x < (r + 1) * (r + 1) /\ r = Z.sqrt x /\
            isqrt16 0 = Ok 0 /\ isqrt16 65535 = Ok 255.
Proof.
  intros Hx. destruct (isqrt16_returns_root x Hx) as (r & Hr & Hr0 & Hsq).
  exists r. split; [exact Hr|]. split; [exact Hsq|]. split.
  - symmetry. apply Z.sqrt_unique. unfold Z.succ. exact Hsq.
  - split; vm_compute; reflexivity.
Qed.

Lemma isqrt16_floor_sqrt_witness :
  exists r, isqrt16 6400 = Ok r /\
            r * r <= 6400 < (r + 1) * (r + 1) /\ r = Z.sqrt 6400 /\
            isqrt16 0 = Ok 0 /\ isqrt16 65535 = Ok 255.
Proof. apply (isqrt16_floor_sqrt 6400). unfold is_uint16. lia. Defined.

(** ** Planar magnitude *)

(** The square root of a 16-bit value fits in 8 bits. *)
Lemma isqrt16_at_most_255 x :
  is_uint16 x -> exists r, isqrt16 x = Ok r /\ 0 <= r <= 255.
Proof.
  intros Hx. destruct (isqrt16_returns_root x Hx) as (r & Hr & Hr0 & Hsq).
  exists r. split; [exact Hr|]. destruct Hx. nia.
Qed.

(** C8: on the scaled 3-4-5 triple the magnitude is 1280 = 5 * 256
    exactly: the squared terms are 2304 and 4096, their sum 6400 has
    root 80, and the rescale shifts 80 left by 4. *)
Theorem pythagoras_3_4_5 :
  pythagoras_q88_16bit 768 1024 = Ok 1280 /\
  isqrt16 (2304 + 4096) = Ok 80 /\ int_shl 80 4 = 5 * 256.
Proof. repeat split; vm_compute; reflexivity. Qed.

(** C10: for all signed 16-bit inputs the magnitude is a value in
    [0, 4080] and a multiple of 16, hence never negative. *)
Theorem pythagoras_range a b :
  is_int16 a -> is_int16 b ->
  exists r, pythagoras_q88_16bit a b = Ok r /\ 0 <= r <= 4080 /\ r mod 16 = 0.
Proof.
  intros _ _. unfold pythagoras_q88_16bit. cbv zeta.
  match goal with |- context [isqrt16 ?s] => set (sum := s) end.
  assert (Hsum : is_uint16 sum).
  { subst sum. unfold is_uint16.
    match goal with |- 0 <= to_uint16 ?e <= _ =>
      pose proof (to_uint16_range e) end.
    lia. }
  destruct (isqrt16_at_most_255 sum Hsum) as (s & Hs & Hrange).
  rewrite Hs. cbn [bind].
  rewrite int_shl_small by (change (2 ^ 4) with 16; lia).
  change (2 ^ 4) with 16. rewrite to_int16_small by lia.
  exists (s * 16). split; [reflexivity|]. split; [lia|].
  apply Z.mod_mul. lia.
Qed.

Lemma pythagoras_range_witness :
  exists r, pythagoras_q88_16bit (-32768) 300 = Ok r /\
            0 <= r <= 4080 /\ r mod 16 = 0.
Proof. apply (pythagoras_range (-32768) 300); unfold is_int16; lia. Defined.

(** ** The arctangent estimator *)

(** [fixed_atan2_q8_8] is its three stages in sequence. *)
Lemma fixed_atan2_stages y x :
  fixed_atan2_q8_8 y x =
  if (x =? 0) && (y =? 0) then Ok 0
  else zi <- atan2_ratio (to_int16 (Z.abs y)) (to_int16 (Z.abs x)) ;;
       Ok (atan2_quadrant y x (atan2_base_angle zi)).
Proof.
  unfold fixed_atan2_q8_8, atan2_ratio, atan2_base_angle, atan2_quadrant.
  destruct ((x =? 0) && (y =? 0)); [reflexivity|]. cbv zeta.
  match goal with |- bind ?m _ = _ => destruct m as [zi | |] end;
    cbn [bind]; [|reflexivity|reflexivity].
  repeat match goal with |- context [if ?c then _ else _] =>
    destruct c end; reflexivity.
Qed.

Lemma to_int16_abs v :
  -32767 <= v <= 32767 -> to_int16 (Z.abs v) = Z.abs v.
Proof. intros H. apply to_int16_small. lia. Qed.

(** The ratio stage on two magnitudes that are not both zero: the
    divisor is the larger one, the ratio is at most 256 (below 256 on
    the inverted branch). *)
Lemma atan2_ratio_range ay ax :
  0 <= ay <= 32767 -> 0 <= ax <= 32767 -> ay + ax <> 0 ->
  exists z i, atan2_ratio ay ax = Ok (z, i) /\
              0 <= z <= 256 /\ (i = true -> z < 256).
Proof.
  intros Hy Hx Hnz. unfold atan2_ratio.
  destruct (Z.gtb_spec ay ax) as [Hgt | Hle].
  - rewrite int_shl_small by (change (2 ^ 8) with 256; lia).
    change (2 ^ 8) with 256.
    rewrite int_div_nonzero by lia. cbn [bind].
    rewrite Z.quot_div_nonneg by lia.
    assert (0 <= ax * 256 / ay) by (apply Z.div_pos; lia).
    assert (ax * 256 / ay < 256) by (apply Z.div_lt_upper_bound; lia).
    rewrite to_int16_small by lia.
    exists (ax * 256 / ay), true. split; [reflexivity|]. lia.
  - rewrite int_shl_small by (change (2 ^ 8) with 256; lia).
    change (2 ^ 8) with 256.
    rewrite int_div_nonzero by lia. cbn [bind].
    rewrite Z.quot_div_nonneg by lia.
    assert (0 <= ay * 256 / ax) by (apply Z.div_pos; lia).
    assert (ay * 256 / ax <= 256) by (apply Z.div_le_upper_bound; lia).
    rewrite to_int16_small by lia.
    exists (ay * 256 / ax), false. split; [reflexivity|].
    split; [lia | discriminate].
Qed.

(** The base angle of such a ratio lies in the closed octant pair
    [0, 64]. *)
Lemma atan2_base_angle_range z i :
  0 <= z <= 256 -> (i = true -> z < 256) ->
  0 <= atan2_base_angle (z, i) <= 64.
Proof.
  intros Hz Hi. unfold atan2_base_angle. cbn [fst snd].
  rewrite int_shr_div by lia. change (2 ^ 2) with 4.
  assert (0 <= z / 4 <= 64) by (Z.div_mod_to_equations; lia).
  rewrite (to_uint8_small (z / 4)) by lia.
  destruct i; [|lia].
  specialize (Hi eq_refl).
  assert (z / 4 <= 63) by (Z.div_mod_to_equations; lia).
  rewrite to_uint8_small by lia. lia.
Qed.

(** The quadrant correction of a base angle in [0, 64]. *)
Lemma atan2_quadrant_closed y x b :
  y <> 0 -> x <> 0 -> 0 <= b <= 64 ->
  in_quadrant_closed x y (atan2_quadrant y x b).
Proof.
  intros Hy Hx Hb. unfold atan2_quadrant, in_quadrant_closed.
  destruct (Z.geb_spec x 0), (Z.geb_spec y 0), (Z.ltb_spec x 0),
    (Z.ltb_spec y 0); try lia; cbn [andb].
  - repeat split; intros; lia.
  - destruct (Z.eq_dec b 0) as [-> | Hb0].
    + change (to_uint8 (256 - 0)) with 0. repeat split; intros; lia.
    + rewrite to_uint8_small by lia. repeat split; intros; lia.
  - rewrite to_uint8_small by lia. repeat split; intros; lia.
  - rewrite to_uint8_small by lia. repeat split; intros; lia.
Qed.

(** Away from the value -32768, any pair other than (0, 0) gets an
    angle: the divisor is never zero there. *)
Lemma fixed_atan2_returns y x :
  -32767 <= y <= 32767 -> -32767 <= x <= 32767 ->
  exists r, fixed_atan2_q8_8 y x = Ok r /\
            (y <> 0 -> x <> 0 -> in_quadrant_closed x y r).
Proof.
  intros Hy Hx. rewrite fixed_atan2_stages.
  destruct (Z.eqb_spec x 0) as [Hx0 | Hx0], (Z.eqb_spec y 0) as [Hy0 | Hy0];
    cbn [andb]; try (exists 0; split; [reflexivity | intros; lia]).
  all: rewrite !to_int16_abs by lia.
  all: destruct (atan2_ratio_range (Z.abs y) (Z.abs x)) as (z & i & Hr & Hz & Hi);
    try lia.
  all: rewrite Hr; cbn [bind]; eexists; split; [reflexivity|]; intros ? ?.
  all: try lia.
  apply atan2_quadrant_closed; try assumption.
  apply atan2_base_angle_range; assumption.
Qed.

(** With [y = -32768] the stored [abs_y] is -32768 again, never above
    [abs_x], so the divisor is [abs_x]. *)
Lemma fixed_atan2_min_y x :
  -32767 <= x <= 32767 ->
  (x = 0 -> fixed_atan2_q8_8 (-32768) x = DivByZero) /\
  (x <> 0 -> exists r, fixed_atan2_q8_8 (-32768) x = Ok r).
Proof.
  intros Hx. split.
  - intros ->. reflexivity.
  - intros Hx0. rewrite fixed_atan2_stages.
    destruct (Z.eqb_spec x 0); [contradiction|]. cbn [andb].
    rewrite (to_int16_abs x) by lia.
    change (to_int16 (Z.abs (-32768))) with (-32768).
    unfold atan2_ratio.
    destruct (Z.gtb_spec (-32768) (Z.abs x)); [lia|].
    change (int_shl (-32768) 8) with (-8388608).
    rewrite int_div_nonzero by lia. cbn [bind]. eexists. reflexivity.
Qed.

(** With [x = -32768] the stored [abs_x] is -32768, below every
    [abs_y], so the divisor is [abs_y]. *)
Lemma fixed_atan2_min_x y :
  -32767 <= y <= 32767 ->
  (y = 0 -> fixed_atan2_q8_8 y (-32768) = DivByZero) /\
  (y <> 0 -> exists r, fixed_atan2_q8_8 y (-32768) = Ok r).
Proof.
  intros Hy. split.
  - intros ->. reflexivity.
  - intros Hy0. rewrite fixed_atan2_stages.
    change ((-32768 =? 0) && (y =? 0)) with false. cbv iota.
    rewrite (to_int16_abs y) by lia.
    change (to_int16 (Z.abs (-32768))) with (-32768).
    unfold atan2_ratio.
    destruct (Z.gtb_spec (Z.abs y) (-32768)); [|lia].
    change (int_shl (-32768) 8) with (-8388608).
    rewrite int_div_nonzero by lia. cbn [bind]. eexists. reflexivity.
Qed.

(** C3: on signed 16-bit inputs the evaluation divides by zero exactly
    at (y, x) = (-32768, 0) and (0, -32768): two inputs other than
    (0, 0) where the stored absolute value -32768 makes the chosen
    divisor the zero coordinate. *)
Theorem fixed_atan2_divides_by_zero_iff y x :
  is_int16 y -> is_int16 x ->
  (fixed_atan2_q8_8 y x = DivByZero <->
   (y = -32768 /\ x = 0) \/ (y = 0 /\ x = -32768)).
Proof.
  intros [Hy1 Hy2] [Hx1 Hx2]. split.
  - intros Hdiv.
    destruct (Z.eq_dec y (-32768)) as [-> | Hy], (Z.eq_dec x (-32768)) as [-> | Hx].
    + discriminate Hdiv.
    + destruct (fixed_atan2_min_y x) as [_ Hok]; [lia|].
      destruct (Z.eq_dec x 0) as [-> | Hx0]; [left; split; reflexivity|].
      destruct (Hok Hx0) as [r Hr]. congruence.
    + destruct (fixed_atan2_min_x y) as [_ Hok]; [lia|].
      destruct (Z.eq_dec y 0) as [-> | Hy0]; [right; split; reflexivity|].
      destruct (Hok Hy0) as [r Hr]. congruence.
    + destruct (fixed_atan2_returns y x) as (r & Hr & _); try lia. congruence.
  - intros [[-> ->] | [-> ->]]; reflexivity.
Qed.

Lemma fixed_atan2_divides_by_zero_witness :
  fixed_atan2_q8_8 (-32768) 0 = DivByZero.
Proof.
  apply (fixed_atan2_divides_by_zero_iff (-32768) 0).
  - unfold is_int16. lia.
  - unfold is_int16. lia.
  - left. split; reflexivity.
Defined.

(** C4, as stated, fails at the end of every quadrant's range: the
    steep first-quadrant point (y, x) = (65, 1) gets the angle 64,
    outside [0, 64); likewise (1, -65) gets 128, (-65, -1) gets 192 and
    (-1, 65) gets 0. *)
Lemma fixed_atan2_leaves_half_open :
  (fixed_atan2_q8_8 65 1 = Ok 64 /\ ~ in_quadrant_half_open 1 65 64) /\
  (fixed_atan2_q8_8 1 (-65) = Ok 128 /\ ~ in_quadrant_half_open (-65) 1 128) /\
  (fixed_atan2_q8_8 (-65) (-1) = Ok 192 /\
   ~ in_quadrant_half_open (-1) (-65) 192) /\
  (fixed_atan2_q8_8 (-1) 65 = Ok 0 /\ ~ in_quadrant_half_open 65 (-1) 0).
Proof.
  unfold in_quadrant_half_open.
  repeat split; try reflexivity; intros (H1 & H2 & H3 & H4); lia.
Qed.

(** C4, amended: for both coordinates nonzero and within
    [-32767, 32767], the angle lies in the closed 64-step range of the
    quadrant of (x, y), read modulo 256. *)
Theorem fixed_atan2_quadrant_closed y x :
  -32767 <= y <= 32767 -> -32767 <= x <= 32767 -> y <> 0 -> x <> 0 ->
  exists r, fixed_atan2_q8_8 y x = Ok r /\ in_quadrant_closed x y r.
Proof.
  intros Hy Hx Hy0 Hx0.
  destruct (fixed_atan2_returns y x Hy Hx) as (r & Hr & Hq).
  exists r. split; [exact Hr | exact (Hq Hy0 Hx0)].
Qed.

Lemma fixed_atan2_quadrant_closed_witness :
  exists r, fixed_atan2_q8_8 (-3) 4 = Ok r /\ in_quadrant_closed 4 (-3) r.
Proof. apply (fixed_atan2_quadrant_closed (-3) 4); lia. Defined.

(** * Further properties of the kernel *)

(** ** The table and the folded sine *)

Section TableFacts.

Variable a : Z.
Hypothesis Ha : is_uint8 a.

(** The quadrant is one of the four cases of the [switch]: its
    [default] is never taken. *)
Lemma quadrant_of_cases :
  quadrant_of a = 0 \/ quadrant_of a = 1 \/ quadrant_of a = 2 \/ quadrant_of a = 3.
Proof. destruct (quadrant_index_of a Ha) as (Hq & _ & Hr). lia. Qed.

Lemma index_of_range : 0 <= index_of a <= 63.
Proof.
  destruct (quadrant_index_of a Ha) as (_ & Hi & _). rewrite Hi.
  pose proof (Z.mod_pos_bound a 64). lia.
Qed.

End TableFacts.

Lemma sine_table_entries : Forall (fun v => 0 <= v <= 327) sine_table.
Proof. unfold sine_table. repeat constructor; lia. Qed.

Lemma sine_table_sorted : StronglySorted Z.lt sine_table.
Proof.
  apply Sorted_StronglySorted; [exact Z.lt_trans|].
  unfold sine_table. repeat constructor.
Qed.

Lemma sine_table_at_range i :
  0 <= i <= 63 -> 0 <= sine_table_at i <= 327.
Proof.
  intros Hi. unfold sine_table_at.
  pose proof sine_table_entries as H. rewrite Forall_forall in H.
  apply H. apply nth_In. change (length sine_table) with 64%nat. lia.
Qed.

(** In a strictly sorted list a later position holds a larger value. *)
Lemma strongly_sorted_nth (l : list Z) :
  StronglySorted Z.lt l ->
  forall i j, (i < j < length l)%nat -> nth i l 0 < nth j l 0.
Proof.
  induction 1 as [| v l Hs IH Hall]; intros i j Hij; cbn [length] in Hij.
  - lia.
  - destruct j as [| j]; [lia|]. destruct i as [| i]; cbn [nth].
    + rewrite Forall_forall in Hall. apply Hall. apply nth_In. lia.
    + apply IH. lia.
Qed.

Lemma sine_table_at_increasing i j :
  0 <= i -> i < j -> j <= 63 -> sine_table_at i < sine_table_at j.
Proof.
  intros Hi Hij Hj. unfold sine_table_at.
  apply strongly_sorted_nth; [exact sine_table_sorted|].
  change (length sine_table) with 64%nat. lia.
Qed.

(** The folded sine without the conversions: a table entry or its
    negation, selected by [a / 64], read at [a mod 64] or mirrored. *)
Lemma fixed_sin_by_quadrant a :
  is_uint8 a ->
  (a / 64 = 0 -> fixed_sin_q8_8 a = sine_table_at (a mod 64)) /\
  (a / 64 = 1 -> fixed_sin_q8_8 a = sine_table_at (63 - a mod 64)) /\
  (a / 64 = 2 -> fixed_sin_q8_8 a = - sine_table_at (a mod 64)) /\
  (a / 64 = 3 -> fixed_sin_q8_8 a = - sine_table_at (63 - a mod 64)).
Proof.
  intros Ha. destruct (quadrant_index_of a Ha) as (Hq & Hi & _).
  pose proof (Z.mod_pos_bound a 64 eq_refl) as Hm.
  pose proof (sine_table_at_range (a mod 64)) as R1.
  pose proof (sine_table_at_range (63 - a mod 64)) as R2.
  unfold fixed_sin_q8_8, TABLE_SIZE. rewrite Hq, Hi.
  replace (64 - 1 - a mod 64) with (63 - a mod 64) by lia.
  repeat split; intros ->; apply to_int16_small; lia.
Qed.

(** X1: on every 8-bit angle the [switch] takes one of its four cases
    and both table subscripts, [index] and [TABLE_SIZE - 1 - index],
    are positions of the 64-entry table: no read falls outside it. *)
Theorem fixed_sin_reads_inside_table a :
  is_uint8 a ->
  0 <= quadrant_of a <= 3 /\
  0 <= index_of a /\ 0 <= TABLE_SIZE - 1 - index_of a /\
  (Z.to_nat (index_of a) < length sine_table)%nat /\
  (Z.to_nat (TABLE_SIZE - 1 - index_of a) < length sine_table)%nat.
Proof.
  intros Ha. pose proof (quadrant_of_cases a Ha) as Hq.
  pose proof (index_of_range a Ha) as Hi.
  unfold TABLE_SIZE. change (length sine_table) with 64%nat.
  repeat split; lia.
Qed.

Lemma fixed_sin_reads_inside_table_witness :
  0 <= quadrant_of 255 <= 3 /\
  0 <= index_of 255 /\ 0 <= TABLE_SIZE - 1 - index_of 255 /\
  (Z.to_nat (index_of 255) < length sine_table)%nat /\
  (Z.to_nat (TABLE_SIZE - 1 - index_of 255) < length sine_table)%nat.
Proof. apply (fixed_sin_reads_inside_table 255). unfold is_uint8. lia. Defined.

(** X2: half-turn antisymmetry, exact: the sine of [a] is the negated
    sine of [(a + 128) mod 256]. *)
Theorem fixed_sin_half_turn a :
  is_uint8 a -> fixed_sin_q8_8 a = - fixed_sin_q8_8 ((a + 128) mod 256).
Proof.
  intros Ha. set (m := (a + 128) mod 256).
  assert (Hm : is_uint8 m /\ m mod 64 = a mod 64 /\
               (a / 64 = 0 -> m / 64 = 2) /\ (a / 64 = 1 -> m / 64 = 3) /\
               (a / 64 = 2 -> m / 64 = 0) /\ (a / 64 = 3 -> m / 64 = 1)).
  { subst m. destruct Ha as [Hlo Hhi]. unfold is_uint8.
    destruct (Z_lt_ge_dec a 128) as [Hs | Hs].
    - rewrite (Z.mod_small (a + 128)) by lia.
      split; [lia|]. repeat split; intros; Z.div_mod_to_equations; lia.
    - replace ((a + 128) mod 256) with (a - 128)
        by (apply Z.mod_unique with (q := 1); lia).
      split; [lia|]. repeat split; intros; Z.div_mod_to_equations; lia. }
  destruct Hm as (Hm & Hi & H0 & H1 & H2 & H3).
  destruct (fixed_sin_by_quadrant a Ha) as (A0 & A1 & A2 & A3).
  destruct (fixed_sin_by_quadrant m Hm) as (M0 & M1 & M2 & M3).
  rewrite Hi in M0, M1, M2, M3.
  assert (Hq : a / 64 = 0 \/ a / 64 = 1 \/ a / 64 = 2 \/ a / 64 = 3)
    by (destruct Ha; Z.div_mod_to_equations; lia).
  destruct Hq as [Hq | [Hq | [Hq | Hq]]].
  - rewrite (A0 Hq), (M2 (H0 Hq)). lia.
  - rewrite (A1 Hq), (M3 (H1 Hq)). lia.
  - rewrite (A2 Hq), (M0 (H2 Hq)). lia.
  - rewrite (A3 Hq), (M1 (H3 Hq)). lia.
Qed.

Lemma fixed_sin_half_turn_witness :
  fixed_sin_q8_8 200 = - fixed_sin_q8_8 ((200 + 128) mod 256).
Proof. apply (fixed_sin_half_turn 200). unfold is_uint8. lia. Defined.

(** Range and sign of the folded sine. *)
Lemma fixed_sin_sign a :
  is_uint8 a ->
  -327 <= fixed_sin_q8_8 a <= 327 /\
  (a < 128 -> 0 <= fixed_sin_q8_8 a) /\
  (128 <= a -> fixed_sin_q8_8 a <= 0).
Proof.
  intros Ha. destruct (fixed_sin_by_quadrant a Ha) as (A0 & A1 & A2 & A3).
  pose proof (Z.mod_pos_bound a 64 eq_refl) as Hm.
  pose proof (sine_table_at_range (a mod 64)) as R1.
  pose proof (sine_table_at_range (63 - a mod 64)) as R2.
  assert (Hq : a / 64 = 0 \/ a / 64 = 1 \/ a / 64 = 2 \/ a / 64 = 3)
    by (destruct Ha; Z.div_mod_to_equations; lia).
  destruct Hq as [Hq | [Hq | [Hq | Hq]]];
    [rewrite (A0 Hq) | rewrite (A1 Hq) | rewrite (A2 Hq) | rewrite (A3 Hq)];
    (split; [lia|]); split; intros; Z.div_mod_to_equations; lia.
Qed.

(** X3: the values stay within [-327, 327], above the nominal 256 of the
    Q8.8 unit, and the signs of (cosine, sine) are those of the
    angle's quadrant. *)
Theorem fixed_sin_cos_signs a :
  is_uint8 a ->
  (-327 <= fixed_sin_q8_8 a <= 327 /\ -327 <= fixed_cos_q8_8 a <= 327) /\
  (a < 128 -> 0 <= fixed_sin_q8_8 a) /\
  (128 <= a -> fixed_sin_q8_8 a <= 0) /\
  (a < 64 \/ 192 <= a -> 0 <= fixed_cos_q8_8 a) /\
  (64 <= a < 192 -> fixed_cos_q8_8 a <= 0).
Proof.
  intros Ha. destruct (fixed_sin_sign a Ha) as (Sr & Sp & Sn).
  unfold fixed_cos_q8_8, to_uint8, wrap_unsigned. change (2 ^ 8) with 256.
  destruct Ha as [Hlo Hhi].
  destruct (Z_lt_ge_dec a 192) as [Hs | Hs].
  - rewrite (Z.mod_small (a + 64)) by lia.
    destruct (fixed_sin_sign (a + 64)) as (Cr & Cp & Cn);
      [unfold is_uint8; lia|].
    repeat split; try tauto; try lia; intros; lia.
  - replace ((a + 64) mod 256) with (a - 192)
      by (apply Z.mod_unique with (q := 1); lia).
    destruct (fixed_sin_sign (a - 192)) as (Cr & Cp & Cn);
      [unfold is_uint8; lia|].
    repeat split; try tauto; try lia; intros; lia.
Qed.

Lemma fixed_sin_cos_signs_witness :
  (-327 <= fixed_sin_q8_8 100 <= 327 /\ -327 <= fixed_cos_q8_8 100 <= 327) /\
  (100 < 128 -> 0 <= fixed_sin_q8_8 100) /\
  (128 <= 100 -> fixed_sin_q8_8 100 <= 0) /\
  (100 < 64 \/ 192 <= 100 -> 0 <= fixed_cos_q8_8 100) /\
  (64 <= 100 < 192 -> fixed_cos_q8_8 100 <= 0).
Proof. apply (fixed_sin_cos_signs 100). unfold is_uint8. lia. Defined.

(** X4: the sine rises strictly over the first quadrant and falls
    strictly over the second. *)
Theorem fixed_sin_monotone a b :
  (0 <= a -> a < b -> b <= 63 -> fixed_sin_q8_8 a < fixed_sin_q8_8 b) /\
  (64 <= a -> a < b -> b <= 127 -> fixed_sin_q8_8 b < fixed_sin_q8_8 a).
Proof.
  split; intros Hlo Hab Hhi.
  - destruct (fixed_sin_by_quadrant a) as (A0 & _); [unfold is_uint8; lia|].
    destruct (fixed_sin_by_quadrant b) as (B0 & _); [unfold is_uint8; lia|].
    rewrite A0, B0 by (Z.div_mod_to_equations; lia).
    apply sine_table_at_increasing; Z.div_mod_to_equations; lia.
  - destruct (fixed_sin_by_quadrant a) as (_ & A1 & _); [unfold is_uint8; lia|].
    destruct (fixed_sin_by_quadrant b) as (_ & B1 & _); [unfold is_uint8; lia|].
    rewrite A1, B1 by (Z.div_mod_to_equations; lia).
    apply sine_table_at_increasing; Z.div_mod_to_equations; lia.
Qed.

Lemma fixed_sin_monotone_witness :
  fixed_sin_q8_8 10 < fixed_sin_q8_8 20 /\ fixed_sin_q8_8 90 < fixed_sin_q8_8 70.
Proof.
  split.
  - apply (proj1 (fixed_sin_monotone 10 20)); lia.
  - apply (proj2 (fixed_sin_monotone 70 90)); lia.
Defined.

(** X5: the sine vanishes at exactly four angles, 0, 127, 128 and 255:
    the zero crossing at the half turn is two angles wide, as is the
    one at the full turn. *)
Theorem fixed_sin_zeros a :
  is_uint8 a ->
  (fixed_sin_q8_8 a = 0 <-> a = 0 \/ a = 127 \/ a = 128 \/ a = 255).
Proof.
  intros Ha. split.
  - intros Hz.
    assert (Hall : forallb (fun a => negb (fixed_sin_q8_8 a =? 0) ||
                                     existsb (Z.eqb a) [0; 127; 128; 255])
                           all_angles = true) by (vm_compute; reflexivity).
    pose proof (all_angles_complete _ Hall a Ha) as H. cbv beta in H.
    rewrite Hz in H. cbn [Z.eqb negb orb existsb] in H.
    repeat rewrite orb_true_iff in H. repeat rewrite Z.eqb_eq in H.
    intuition discriminate.
  - intros [-> | [-> | [-> | ->]]]; reflexivity.
Qed.

Lemma fixed_sin_zeros_witness :
  fixed_sin_q8_8 127 = 0 <-> 127 = 0 \/ 127 = 127 \/ 127 = 128 \/ 127 = 255.
Proof. apply (fixed_sin_zeros 127). unfold is_uint8. lia. Defined.

(** X6: the quarter-turn shift undoes itself after a full turn: the
    sine of [a] is the cosine of [(a + 192) mod 256]. *)
Theorem fixed_sin_is_shifted_cos a :
  is_uint8 a -> fixed_sin_q8_8 a = fixed_cos_q8_8 ((a + 192) mod 256).
Proof.
  intros [Hlo Hhi]. unfold fixed_cos_q8_8, to_uint8, wrap_unsigned.
  change (2 ^ 8) with 256.
  rewrite Z.add_mod_idemp_l by lia.
  replace ((a + 192 + 64) mod 256) with a; [reflexivity|].
  apply Z.mod_unique with (q := 1); lia.
Qed.

Lemma fixed_sin_is_shifted_cos_witness :
  fixed_sin_q8_8 100 = fixed_cos_q8_8 ((100 + 192) mod 256).
Proof. apply (fixed_sin_is_shifted_cos 100). unfold is_uint8. lia. Defined.

(** X7: the cosine is antisymmetric under a half turn and symmetric
    under [a -> (255 - a) mod 256] (its axis lies half a step below
    angle 0). *)
Theorem fixed_cos_symmetries a :
  is_uint8 a ->
  fixed_cos_q8_8 a = - fixed_cos_q8_8 ((a + 128) mod 256) /\
  fixed_cos_q8_8 a = fixed_cos_q8_8 ((255 - a) mod 256).
Proof.
  intros Ha.
  assert (Hall : forallb (fun a =>
            (fixed_cos_q8_8 a =? - fixed_cos_q8_8 ((a + 128) mod 256)) &&
            (fixed_cos_q8_8 a =? fixed_cos_q8_8 ((255 - a) mod 256)))
          all_angles = true) by (vm_compute; reflexivity).
  pose proof (all_angles_complete _ Hall a Ha) as H. cbv beta in H.
  apply andb_true_iff in H. destruct H as [H1 H2].
  apply Z.eqb_eq in H1. apply Z.eqb_eq in H2. split; assumption.
Qed.

Lemma fixed_cos_symmetries_witness :
  fixed_cos_q8_8 30 = - fixed_cos_q8_8 ((30 + 128) mod 256) /\
  fixed_cos_q8_8 30 = fixed_cos_q8_8 ((255 - 30) mod 256).
Proof. apply (fixed_cos_symmetries 30). unfold is_uint8. lia. Defined.

(** ** The arctangent estimator away from -32768 *)

Lemma octant_angle_range ay ax :
  0 <= ay -> 0 <= ax -> ay + ax <> 0 -> 0 <= octant_angle ay ax <= 64.
Proof.
  intros Hy Hx Hnz. unfold octant_angle.
  destruct (Z.gtb_spec ay ax) as [Hgt | Hle].
  - assert (0 <= ax * 256 / ay) by (apply Z.div_pos; lia).
    assert (ax * 256 / ay < 256) by (apply Z.div_lt_upper_bound; lia).
    Z.div_mod_to_equations; lia.
  - assert (0 <= ay * 256 / ax) by (apply Z.div_pos; lia).
    assert (ay * 256 / ax <= 256) by (apply Z.div_le_upper_bound; lia).
    Z.div_mod_to_equations; lia.
Qed.

(** On magnitudes up to 32767 the first two stages compute
    [octant_angle]: no conversion in them changes a value. *)
Lemma atan2_base_angle_value ay ax :
  0 <= ay <= 32767 -> 0 <= ax <= 32767 -> ay + ax <> 0 ->
  exists zi, atan2_ratio ay ax = Ok zi /\
             atan2_base_angle zi = octant_angle ay ax.
Proof.
  intros Hy Hx Hnz. unfold atan2_ratio, octant_angle.
  destruct (Z.gtb_spec ay ax) as [Hgt | Hle].
  - rewrite int_shl_small by (change (2 ^ 8) with 256; lia).
    change (2 ^ 8) with 256.
    rewrite int_div_nonzero by lia. cbn [bind].
    rewrite Z.quot_div_nonneg by lia.
    assert (0 <= ax * 256 / ay) by (apply Z.div_pos; lia).
    assert (ax * 256 / ay < 256) by (apply Z.div_lt_upper_bound; lia).
    rewrite to_int16_small by lia.
    eexists. split; [reflexivity|].
    unfold atan2_base_angle. cbn [fst snd].
    rewrite int_shr_div by lia. change (2 ^ 2) with 4.
    assert (0 <= ax * 256 / ay / 4 <= 63) by (Z.div_mod_to_equations; lia).
    rewrite (to_uint8_small (ax * 256 / ay / 4)) by lia.
    apply to_uint8_small. lia.
  - rewrite int_shl_small by (change (2 ^ 8) with 256; lia).
    change (2 ^ 8) with 256.
    rewrite int_div_nonzero by lia. cbn [bind].
    rewrite Z.quot_div_nonneg by lia.
    assert (0 <= ay * 256 / ax) by (apply Z.div_pos; lia).
    assert (ay * 256 / ax <= 256) by (apply Z.div_le_upper_bound; lia).
    rewrite to_int16_small by lia.
    eexists. split; [reflexivity|].
    unfold atan2_base_angle. cbn [fst snd].
    rewrite int_shr_div by lia. change (2 ^ 2) with 4.
    apply to_uint8_small. Z.div_mod_to_equations; lia.
Qed.

(** The value of [fixed_atan2_q8_8] on a pair other than (0, 0). *)
Lemma fixed_atan2_value y x :
  -32767 <= y <= 32767 -> -32767 <= x <= 32767 -> Z.abs y + Z.abs x <> 0 ->
  fixed_atan2_q8_8 y x =
  Ok (atan2_quadrant y x (octant_angle (Z.abs y) (Z.abs x))).
Proof.
  intros Hy Hx Hnz. rewrite fixed_atan2_stages.
  destruct (Z.eqb_spec x 0) as [Hx0 | Hx0], (Z.eqb_spec y 0) as [Hy0 | Hy0];
    cbn [andb]; try lia.
  all: rewrite !to_int16_abs by lia.
  all: destruct (atan2_base_angle_value (Z.abs y) (Z.abs x))
         as (zi & Hr & Hb); try lia.
  all: rewrite Hr; cbn [bind]; rewrite Hb; reflexivity.
Qed.

(** X8: on the axes the estimate is exact: 64 on the positive y axis,
    192 on the negative one, 0 on the positive x axis and 128 on the
    negative one. *)
Theorem fixed_atan2_axes v :
  0 < v <= 32767 ->
  fixed_atan2_q8_8 v 0 = Ok 64 /\ fixed_atan2_q8_8 (- v) 0 = Ok 192 /\
  fixed_atan2_q8_8 0 v = Ok 0 /\ fixed_atan2_q8_8 0 (- v) = Ok 128.
Proof.
  intros Hv.
  assert (Hup : octant_angle v 0 = 64).
  { unfold octant_angle. destruct (Z.gtb_spec v 0); [|lia].
    rewrite Z.mul_0_l, Z.div_0_l by lia. reflexivity. }
  assert (Hflat : octant_angle 0 v = 0).
  { unfold octant_angle. destruct (Z.gtb_spec 0 v); [lia|].
    rewrite Z.mul_0_l, Z.div_0_l by lia. reflexivity. }
  repeat split; rewrite fixed_atan2_value by lia;
    rewrite ?Z.abs_opp, ?(Z.abs_eq v), ?Hup, ?Hflat by lia;
    change (Z.abs 0) with 0; rewrite ?Hup, ?Hflat;
    unfold atan2_quadrant;
    repeat match goal with
           | |- context [?p >=? 0] => destruct (Z.geb_spec p 0); try lia
           | |- context [?p <? 0] => destruct (Z.ltb_spec p 0); try lia
           end; reflexivity.
Qed.

Lemma fixed_atan2_axes_witness :
  fixed_atan2_q8_8 7 0 = Ok 64 /\ fixed_atan2_q8_8 (- 7) 0 = Ok 192 /\
  fixed_atan2_q8_8 0 7 = Ok 0 /\ fixed_atan2_q8_8 0 (- 7) = Ok 128.
Proof. apply (fixed_atan2_axes 7). lia. Defined.

(** Decide the sign tests of the quadrant correction and finish by
    linear arithmetic on the remaining reductions modulo 256. *)
Ltac quadrant_arith :=
  unfold atan2_quadrant, to_uint8, wrap_unsigned; change (2 ^ 8) with 256;
  repeat match goal with
         | |- context [?p >=? 0] => destruct (Z.geb_spec p 0); try lia
         | |- context [?p <? 0] => destruct (Z.ltb_spec p 0); try lia
         end;
  cbn [andb]; Z.div_mod_to_equations; lia.

(** X9: on the diagonals, [|y| = |x|], the ratio is 256 and the
    estimate is a whole quarter turn: 64 above the x axis, 192 below
    it, in either half plane. *)
Theorem fixed_atan2_diagonal y x :
  -32767 <= y <= 32767 -> Z.abs x = Z.abs y -> y <> 0 ->
  fixed_atan2_q8_8 y x = Ok (if 0 <? y then 64 else 192).
Proof.
  intros Hy Hxy Hy0. rewrite fixed_atan2_value by lia.
  assert (Hb : octant_angle (Z.abs y) (Z.abs x) = 64).
  { unfold octant_angle. rewrite Hxy.
    destruct (Z.gtb_spec (Z.abs y) (Z.abs y)); [lia|].
    rewrite Z.mul_comm, Z.div_mul by lia. reflexivity. }
  rewrite Hb. f_equal.
  destruct (Z.ltb_spec 0 y); quadrant_arith.
Qed.

Lemma fixed_atan2_diagonal_witness :
  fixed_atan2_q8_8 5 (-5) = Ok (if 0 <? 5 then 64 else 192).
Proof. apply (fixed_atan2_diagonal 5 (-5)); [lia | reflexivity | lia]. Defined.

(** X10: reflecting the point in the x axis negates the angle modulo
    256. *)
Theorem fixed_atan2_negate_y y x :
  -32767 <= y <= 32767 -> -32767 <= x <= 32767 ->
  exists r, fixed_atan2_q8_8 y x = Ok r /\
            fixed_atan2_q8_8 (- y) x = Ok ((256 - r) mod 256).
Proof.
  intros Hy Hx.
  destruct (Z.eq_dec (Z.abs y + Z.abs x) 0) as [Hz | Hnz].
  - assert (y = 0) by lia. assert (x = 0) by lia. subst.
    exists 0. split; reflexivity.
  - rewrite !fixed_atan2_value by lia. rewrite Z.abs_opp.
    pose proof (octant_angle_range (Z.abs y) (Z.abs x)) as Hb.
    set (b := octant_angle (Z.abs y) (Z.abs x)) in *.
    eexists. split; [reflexivity|]. f_equal.
    assert (0 <= b <= 64) by lia.
    assert (Hb0 : y = 0 -> b = 0).
    { intros ->. subst b. unfold octant_angle. change (Z.abs 0) with 0.
      destruct (Z.gtb_spec 0 (Z.abs x)); [lia|]. reflexivity. }
    destruct (Z.eq_dec y 0) as [Hy0 | Hy0].
    + rewrite (Hb0 Hy0). subst y. change (- 0) with 0. quadrant_arith.
    + quadrant_arith.
Qed.

Lemma fixed_atan2_negate_y_witness :
  exists r, fixed_atan2_q8_8 3 (-4) = Ok r /\
            fixed_atan2_q8_8 (- 3) (-4) = Ok ((256 - r) mod 256).
Proof. apply (fixed_atan2_negate_y 3 (-4)); lia. Defined.

(** X11: reflecting a point other than (0, 0) in the y axis maps the
    angle [r] to [(128 - r) mod 256]. *)
Theorem fixed_atan2_negate_x y x :
  -32767 <= y <= 32767 -> -32767 <= x <= 32767 -> Z.abs y + Z.abs x <> 0 ->
  exists r, fixed_atan2_q8_8 y x = Ok r /\
            fixed_atan2_q8_8 y (- x) = Ok ((128 - r) mod 256).
Proof.
  intros Hy Hx Hnz.
  rewrite !fixed_atan2_value by lia. rewrite Z.abs_opp.
  pose proof (octant_angle_range (Z.abs y) (Z.abs x)) as Hb.
  set (b := octant_angle (Z.abs y) (Z.abs x)) in *.
  eexists. split; [reflexivity|]. f_equal.
  assert (0 <= b <= 64) by lia.
  assert (Hax : x = 0 -> y <> 0) by lia.
  destruct (Z.eq_dec x 0) as [-> | Hx0].
  - assert (Hb64 : b = 64).
    { subst b. unfold octant_angle. change (Z.abs 0) with 0.
      destruct (Z.gtb_spec (Z.abs y) 0); [|lia].
      rewrite Z.mul_0_l, Z.div_0_l by lia. reflexivity. }
    rewrite Hb64. change (- 0) with 0. quadrant_arith.
  - quadrant_arith.
Qed.

Lemma fixed_atan2_negate_x_witness :
  exists r, fixed_atan2_q8_8 3 4 = Ok r /\
            fixed_atan2_q8_8 3 (- 4) = Ok ((128 - r) mod 256).
Proof. apply (fixed_atan2_negate_x 3 4); lia. Defined.

Lemma octant_angle_scale k ay ax :
  0 < k -> 0 <= ay -> 0 <= ax -> ay + ax <> 0 ->
  octant_angle (k * ay) (k * ax) = octant_angle ay ax.
Proof.
  intros Hk Hy Hx Hnz. unfold octant_angle.
  destruct (Z.gtb_spec ay ax) as [Hgt | Hle],
           (Z.gtb_spec (k * ay) (k * ax)) as [Hgt' | Hle']; try nia.
  - rewrite <- Z.mul_assoc, Z.div_mul_cancel_l by lia. reflexivity.
  - rewrite <- Z.mul_assoc, Z.div_mul_cancel_l by lia. reflexivity.
Qed.

(** X12: the estimate depends on the direction only: scaling both
    coordinates by the same positive factor leaves it unchanged. *)
Theorem fixed_atan2_scale k y x :
  0 < k -> -32767 <= y <= 32767 -> -32767 <= x <= 32767 ->
  -32767 <= k * y <= 32767 -> -32767 <= k * x <= 32767 ->
  fixed_atan2_q8_8 (k * y) (k * x) = fixed_atan2_q8_8 y x.
Proof.
  intros Hk Hy Hx Hky Hkx.
  destruct (Z.eq_dec (Z.abs y + Z.abs x) 0) as [Hz | Hnz].
  - assert (y = 0) by lia. assert (x = 0) by lia. subst.
    rewrite Z.mul_0_r. reflexivity.
  - rewrite (fixed_atan2_value y x) by lia.
    rewrite (fixed_atan2_value (k * y) (k * x)) by nia.
    rewrite !Z.abs_mul, (Z.abs_eq k) by lia.
    rewrite octant_angle_scale by lia. f_equal. unfold atan2_quadrant.
    assert (Hx1 : (k * x >=? 0) = (x >=? 0))
      by (destruct (Z.geb_spec (k * x) 0), (Z.geb_spec x 0); nia || reflexivity).
    assert (Hy1 : (k * y >=? 0) = (y >=? 0))
      by (destruct (Z.geb_spec (k * y) 0), (Z.geb_spec y 0); nia || reflexivity).
    assert (Hx2 : (k * x <? 0) = (x <? 0))
      by (destruct (Z.ltb_spec (k * x) 0), (Z.ltb_spec x 0); nia || reflexivity).
    assert (Hy2 : (k * y <? 0) = (y <? 0))
      by (destruct (Z.ltb_spec (k * y) 0), (Z.ltb_spec y 0); nia || reflexivity).
    rewrite Hx1, Hy1, Hx2, Hy2. reflexivity.
Qed.

Lemma fixed_atan2_scale_witness :
  fixed_atan2_q8_8 (100 * (-3)) (100 * 7) = fixed_atan2_q8_8 (-3) 7.
Proof. apply (fixed_atan2_scale 100 (-3) 7); lia. Defined.

(** X13: in the first quadrant, off the diagonal, exchanging the
    coordinates gives the complementary angle [64 - r]. *)
Theorem fixed_atan2_swap y x :
  0 <= y <= 32767 -> 0 <= x <= 32767 -> x <> y ->
  exists r, fixed_atan2_q8_8 y x = Ok r /\ fixed_atan2_q8_8 x y = Ok (64 - r).
Proof.
  intros Hy Hx Hne.
  rewrite !fixed_atan2_value by lia.
  rewrite (Z.abs_eq y), (Z.abs_eq x) by lia.
  eexists. split; [reflexivity|]. f_equal.
  unfold atan2_quadrant.
  destruct (Z.geb_spec x 0), (Z.geb_spec y 0); try lia. cbn [andb].
  unfold octant_angle.
  destruct (Z.gtb_spec y x), (Z.gtb_spec x y); lia.
Qed.

Lemma fixed_atan2_swap_witness :
  exists r, fixed_atan2_q8_8 3 4 = Ok r /\ fixed_atan2_q8_8 4 3 = Ok (64 - r).
Proof. apply (fixed_atan2_swap 3 4); lia. Defined.

(** X14: fed with the evaluator's own sine and cosine of an angle [a],
    the estimator never divides by zero and answers inside the closed
    quadrant of [a] (counted modulo 256 from its first angle), at a
    circular distance of at most 31 from [a]. *)
Theorem fixed_atan2_of_sin_cos a :
  is_uint8 a ->
  exists r, fixed_atan2_q8_8 (fixed_sin_q8_8 a) (fixed_cos_q8_8 a) = Ok r /\
            0 <= (r - 64 * (a / 64)) mod 256 <= 64 /\
            Z.min ((r - a) mod 256) ((a - r) mod 256) <= 31.
Proof.
  intros Ha.
  assert (Hall : forallb (fun a =>
            match fixed_atan2_q8_8 (fixed_sin_q8_8 a) (fixed_cos_q8_8 a) with
            | Ok r => (0 <=? (r - 64 * (a / 64)) mod 256) &&
                      ((r - 64 * (a / 64)) mod 256 <=? 64) &&
                      (Z.min ((r - a) mod 256) ((a - r) mod 256) <=? 31)
            | _ => false
            end) all_angles = true) by (vm_compute; reflexivity).
  pose proof (all_angles_complete _ Hall a Ha) as H. cbv beta in H.
  destruct (fixed_atan2_q8_8 (fixed_sin_q8_8 a) (fixed_cos_q8_8 a)) as [r | |];
    try discriminate.
  exists r. split; [reflexivity|].
  repeat rewrite andb_true_iff in H. repeat rewrite Z.leb_le in H. tauto.
Qed.

Lemma fixed_atan2_of_sin_cos_witness :
  exists r, fixed_atan2_q8_8 (fixed_sin_q8_8 32) (fixed_cos_q8_8 32) = Ok r /\
            0 <= (r - 64 * (32 / 64)) mod 256 <= 64 /\
            Z.min ((r - 32) mod 256) ((32 - r) mod 256) <= 31.
Proof. apply (fixed_atan2_of_sin_cos 32). unfold is_uint8. lia. Defined.

(** ** Integer square root and magnitude *)

Lemma isqrt16_is_sqrt x : is_uint16 x -> isqrt16 x = Ok (Z.sqrt x).
Proof.
  intros Hx. destruct (isqrt16_returns_root x Hx) as (r & Hr & Hr0 & Hsq).
  rewrite Hr. f_equal. symmetry. apply Z.sqrt_unique. unfold Z.succ. exact Hsq.
Qed.

(** X15: the root of a square is the number itself, for every [n] whose
    square fits in 16 bits. *)
Theorem isqrt16_of_square n :
  0 <= n <= 255 -> isqrt16 (n * n) = Ok n.
Proof.
  intros Hn. rewrite isqrt16_is_sqrt by (unfold is_uint16; nia).
  f_equal. apply Z.sqrt_square. lia.
Qed.

Lemma isqrt16_of_square_witness : isqrt16 (255 * 255) = Ok 255.
Proof. apply (isqrt16_of_square 255). lia. Defined.

(** X16: the root is monotone in its argument. *)
Theorem isqrt16_monotone x y :
  is_uint16 x -> is_uint16 y -> x <= y ->
  exists rx ry, isqrt16 x = Ok rx /\ isqrt16 y = Ok ry /\ rx <= ry.
Proof.
  intros Hx Hy Hxy.
  destruct (isqrt16_returns_root x Hx) as (rx & Hrx & Hx0 & Hxs).
  destruct (isqrt16_returns_root y Hy) as (ry & Hry & Hy0 & Hys).
  exists rx, ry. repeat split; try assumption. nia.
Qed.

Lemma isqrt16_monotone_witness :
  exists rx ry, isqrt16 99 = Ok rx /\ isqrt16 100 = Ok ry /\ rx <= ry.
Proof. apply (isqrt16_monotone 99 100); unfold is_uint16; lia. Defined.

(** The absolute value taken by the conditional negation. *)
Lemma pythagoras_abs a :
  is_int16 a -> to_uint16 (if a <? 0 then - a else a) = Z.abs a.
Proof.
  intros [Hlo Hhi]. destruct (Z.ltb_spec a 0); rewrite to_uint16_small; lia.
Qed.

(** One squared term: [a^2 / 256] reduced to 16 bits. *)
Lemma pythagoras_term a :
  is_int16 a ->
  to_uint16 (Z.shiftr (uint32_mul (Z.abs a) (Z.abs a)) 8) =
  (a * a / 256) mod 65536.
Proof.
  intros [Hlo Hhi]. unfold uint32_mul, to_uint32, to_uint16, wrap_unsigned.
  change (2 ^ 32) with 4294967296. change (2 ^ 16) with 65536.
  replace (a * a) with (Z.abs a * Z.abs a)
    by (rewrite <- Z.abs_mul; apply Z.abs_eq, Z.square_nonneg).
  assert (Hm : 0 <= Z.abs a <= 32768) by lia.
  set (m := Z.abs a) in *.
  rewrite (Z.mod_small m) by lia.
  rewrite (Z.mod_small (m * m) 4294967296) by nia.
  rewrite Z.shiftr_div_pow2 by lia. reflexivity.
Qed.

(** The magnitude as a function of the two inputs, conversions
    resolved. *)
Lemma pythagoras_value a b :
  is_int16 a -> is_int16 b ->
  pythagoras_q88_16bit a b =
  Ok (16 * Z.sqrt (((a * a / 256) mod 65536 + (b * b / 256) mod 65536)
                   mod 65536)).
Proof.
  intros Ha Hb. unfold pythagoras_q88_16bit. cbv zeta.
  rewrite !pythagoras_abs, !pythagoras_term by assumption.
  set (s := to_uint16 ((a * a / 256) mod 65536 + (b * b / 256) mod 65536)).
  assert (Hs : is_uint16 s).
  { pose proof (to_uint16_range
      ((a * a / 256) mod 65536 + (b * b / 256) mod 65536)).
    unfold is_uint16. fold s in H. lia. }
  rewrite isqrt16_is_sqrt by exact Hs. cbn [bind].
  assert (Hr : 0 <= Z.sqrt s <= 255).
  { split; [apply Z.sqrt_nonneg|].
    destruct Hs as [Hs0 Hs1].
    assert (Z.sqrt s < 256); [|lia].
    apply Z.sqrt_lt_square; lia. }
  rewrite int_shl_small by (change (2 ^ 4) with 16; lia).
  change (2 ^ 4) with 16. rewrite to_int16_small by lia.
  f_equal. subst s. unfold to_uint16, wrap_unsigned.
  change (2 ^ 16) with 65536. lia.
Qed.

(** X17: the magnitude in closed form, wrap-around included: 16 times
    the floor of the square root of the two 16-bit squared terms'
    16-bit sum. *)
Theorem pythagoras_closed_form a b :
  is_int16 a -> is_int16 b ->
  pythagoras_q88_16bit a b =
  Ok (16 * Z.sqrt (((a * a / 256) mod 65536 + (b * b / 256) mod 65536)
                   mod 65536)).
Proof. exact (pythagoras_value a b). Qed.

Lemma pythagoras_closed_form_witness :
  pythagoras_q88_16bit (-5000) 300 =
  Ok (16 * Z.sqrt (((-5000 * -5000 / 256) mod 65536 + (300 * 300 / 256) mod 65536)
                   mod 65536)).
Proof. apply (pythagoras_closed_form (-5000) 300); unfold is_int16; lia. Defined.

(** X18: the magnitude does not depend on the order of its arguments
    nor on the sign of either. *)
Theorem pythagoras_symmetric a b :
  -32767 <= a <= 32767 -> -32767 <= b <= 32767 ->
  pythagoras_q88_16bit a b = pythagoras_q88_16bit b a /\
  pythagoras_q88_16bit (- a) b = pythagoras_q88_16bit a b /\
  pythagoras_q88_16bit a (- b) = pythagoras_q88_16bit a b.
Proof.
  intros Ha Hb. rewrite !pythagoras_value by (unfold is_int16; lia).
  rewrite !Z.mul_opp_opp. repeat split.
  rewrite (Z.add_comm ((a * a / 256) mod 65536)). reflexivity.
Qed.

Lemma pythagoras_symmetric_witness :
  pythagoras_q88_16bit 768 (-1024) = pythagoras_q88_16bit (-1024) 768 /\
  pythagoras_q88_16bit (- 768) (-1024) = pythagoras_q88_16bit 768 (-1024) /\
  pythagoras_q88_16bit 768 (- -1024) = pythagoras_q88_16bit 768 (-1024).
Proof. apply (pythagoras_symmetric 768 (-1024)); lia. Defined.

(** X19: while the two squared terms sum to at most 65535 (no
    wrap-around), the result [r] never exceeds the true magnitude and
    falls short of it by little more than one 16-unit step:
    [r^2 <= a^2 + b^2 < (r + 16)^2 + 256]. *)
Theorem pythagoras_accuracy a b :
  is_int16 a -> is_int16 b -> a * a / 256 + b * b / 256 <= 65535 ->
  exists r, pythagoras_q88_16bit a b = Ok r /\
            r * r <= a * a + b * b < (r + 16) * (r + 16) + 256.
Proof.
  intros Ha Hb Hfit. rewrite pythagoras_value by assumption.
  assert (Ha2 : 0 <= a * a / 256) by (apply Z.div_pos; nia).
  assert (Hb2 : 0 <= b * b / 256) by (apply Z.div_pos; nia).
  rewrite (Z.mod_small (a * a / 256)), (Z.mod_small (b * b / 256)) by lia.
  rewrite Z.mod_small by lia.
  eexists. split; [reflexivity|].
  pose proof (Z.sqrt_spec (a * a / 256 + b * b / 256)) as Hs.
  pose proof (Z.sqrt_nonneg (a * a / 256 + b * b / 256)) as Hs0.
  unfold Z.succ in Hs.
  set (q := Z.sqrt (a * a / 256 + b * b / 256)) in *.
  pose proof (Z.mul_div_le (a * a) 256) as A1.
  pose proof (Z.mul_succ_div_gt (a * a) 256) as A2.
  pose proof (Z.mul_div_le (b * b) 256) as B1.
  pose proof (Z.mul_succ_div_gt (b * b) 256) as B2.
  unfold Z.succ in A2, B2.
  set (qa := a * a / 256) in *. set (qb := b * b / 256) in *.
  nia.
Qed.

Lemma pythagoras_accuracy_witness :
  exists r, pythagoras_q88_16bit 1000 (-2000) = Ok r /\
            r * r <= 1000 * 1000 + -2000 * -2000 < (r + 16) * (r + 16) + 256.
Proof.
  apply (pythagoras_accuracy 1000 (-2000)).
  - unfold is_int16. lia.
  - unfold is_int16. lia.
  - vm_compute. discriminate.
Defined.

(** X20: along an axis, below 4096, the magnitude is the absolute value
    rounded down to a multiple of 16. *)
Theorem pythagoras_on_axis a :
  -4096 < a < 4096 ->
  pythagoras_q88_16bit a 0 = Ok (16 * (Z.abs a / 16)) /\
  pythagoras_q88_16bit 0 a = Ok (16 * (Z.abs a / 16)).
Proof.
  intros Ha.
  assert (Hv : Z.sqrt (a * a / 256) = Z.abs a / 16).
  { replace (a * a) with (Z.abs a * Z.abs a)
      by (rewrite <- Z.abs_mul; apply Z.abs_eq, Z.square_nonneg).
    assert (Hm : 0 <= Z.abs a) by lia. set (m := Z.abs a) in *.
    apply Z.sqrt_unique. unfold Z.succ.
    pose proof (Z.mul_div_le m 16) as M1.
    pose proof (Z.mul_succ_div_gt m 16) as M2. unfold Z.succ in M2.
    assert (0 <= m / 16) by (apply Z.div_pos; lia).
    set (q := m / 16) in *. split.
    - apply Z.div_le_lower_bound; nia.
    - apply Z.div_lt_upper_bound; nia. }
  assert (Hsmall : 0 <= a * a / 256 < 65536).
  { split; [apply Z.div_pos; nia|]. apply Z.div_lt_upper_bound; nia. }
  rewrite !pythagoras_value by (unfold is_int16; lia).
  change (0 * 0 / 256) with 0. change (0 mod 65536) with 0.
  rewrite Z.add_0_r, Z.add_0_l, (Z.mod_small (a * a / 256)) by lia.
  rewrite Z.mod_small by lia.
  rewrite Hv. split; reflexivity.
Qed.

Lemma pythagoras_on_axis_witness :
  pythagoras_q88_16bit (-1000) 0 = Ok (16 * (Z.abs (-1000) / 16)) /\
  pythagoras_q88_16bit 0 (-1000) = Ok (16 * (Z.abs (-1000) / 16)).
Proof. apply (pythagoras_on_axis (-1000)). lia. Defined.

(** X21: the squared term of a multiple of 4096 wraps to zero: such a
    coordinate contributes nothing, and the magnitude is that of the
    other coordinate alone. *)
Theorem pythagoras_wraps_to_zero k b :
  -8 <= k <= 7 -> is_int16 b ->
  pythagoras_q88_16bit (4096 * k) b = pythagoras_q88_16bit 0 b /\
  pythagoras_q88_16bit (4096 * k) 0 = Ok 0.
Proof.
  intros Hk Hb.
  assert (Hz : (4096 * k * (4096 * k) / 256) mod 65536 = 0).
  { replace (4096 * k * (4096 * k)) with (65536 * (k * k) * 256) by lia.
    rewrite Z.div_mul by lia. rewrite Z.mul_comm. apply Z.mod_mul. lia. }
  rewrite !pythagoras_value by (unfold is_int16 in *; lia).
  rewrite Hz. split; reflexivity.
Qed.

Lemma pythagoras_wraps_to_zero_witness :
  pythagoras_q88_16bit (4096 * 1) 300 = pythagoras_q88_16bit 0 300 /\
  pythagoras_q88_16bit (4096 * 1) 0 = Ok 0.
Proof.
  apply (pythagoras_wraps_to_zero 1 300); [lia | unfold is_int16; lia].
Defined.
